(** * server.js: the user collection and the upload route

    A shallow embedding of the request handlers of [server.js]: the
    in-memory [users] array with its five routes, and the upload route
    with its [fileFilter] and error handler.  Each handler is a function
    from the state it reads (the array, the upload directory) and the
    request to the new state and the JSON response it sends. *)

From Stdlib Require Import ZArith NArith String Ascii.
From Stdlib Require Import Floats.SpecFloat.
From stdpp Require Import base decidable option list list_misc strings pretty gmap.

Local Open Scope string_scope.
Local Open Scope Z_scope.
Local Open Scope list_scope.

(** ** JavaScript values *)

Module JS.

(** A JavaScript string is a sequence of UTF-16 code units. *)
Definition code_unit := N.
Definition js_string := list code_unit.

(** Literals of the development are ASCII. *)
Fixpoint str (s : string) : js_string :=
  match s with
  | EmptyString => []
  | String c r => N_of_ascii c :: str r
  end.

(** What [req.body] can hold at a key after [express.json()]: a JSON value,
    or [undefined] when the key is absent.  Numbers are IEEE 754 doubles. *)
#[local] Unset Elimination Schemes.
Inductive jsval :=
  | JUndefined
  | JNull
  | JBool (b : bool)
  | JNum (f : spec_float)
  | JStr (s : string)
  | JArr (elems : list jsval)
  | JObj (fields : list (string * jsval)).
#[local] Set Elimination Schemes.

(** ToBoolean, the test behind [if (v)] and [!v]. *)
Definition truthy (v : jsval) : bool :=
  match v with
  | JUndefined | JNull => false
  | JBool b => b
  | JNum f =>
      match f with
      | S754_zero _ | S754_nan => false
      | S754_infinity _ | S754_finite _ _ _ => true
      end
  | JStr s => negb (String.eqb s "")
  | JArr _ | JObj _ => true
  end.

(** The result of [Number.parseInt]: NaN, or the integer that the digits
    denote.  [Int z] stands for the double that [z] rounds to; the rounding is
    the identity below 2^53 and never leads back below it, and the ids the
    result is compared with are the seeds and array lengths plus one (below
    2^32), so [===] against an id is equality of integers. *)
Inductive number :=
  | NaN
  | Int (z : Z).

Global Instance number_eq_dec : EqDecision number.
Proof. solve_decision. Defined.

(** *** Number.parseInt (string), radix absent *)

(** WhiteSpace and LineTerminator code points (TrimString skips both). *)
Definition is_white_space (c : code_unit) : bool :=
  let c := Z.of_N c in
  (c =? 9) || (c =? 10) || (c =? 11) || (c =? 12) || (c =? 13) || (c =? 32)
  || (c =? 160) || (c =? 5760) || ((8192 <=? c) && (c <=? 8202))
  || (c =? 8232) || (c =? 8233) || (c =? 8239) || (c =? 8287)
  || (c =? 12288) || (c =? 65279).

Fixpoint trim_start (s : js_string) : js_string :=
  match s with
  | c :: r => if is_white_space c then trim_start r else s
  | [] => []
  end.

(** The value of [c] as a digit: 0-9, then a-z and A-Z for 10-35. *)
Definition digit_of (c : code_unit) : option Z :=
  let c := Z.of_N c in
  if (48 <=? c) && (c <=? 57) then Some (c - 48)
  else if (97 <=? c) && (c <=? 122) then Some (c - 97 + 10)
  else if (65 <=? c) && (c <=? 90) then Some (c - 65 + 10)
  else None.

Definition radix_digit (R : Z) (c : code_unit) : option Z :=
  match digit_of c with
  | Some d => if d <? R then Some d else None
  | None => None
  end.

(** The longest prefix of radix-R digits, as digit values. *)
Fixpoint radix_prefix (R : Z) (s : js_string) : list Z :=
  match s with
  | c :: r =>
      match radix_digit R c with
      | Some d => d :: radix_prefix R r
      | None => []
      end
  | [] => []
  end.

Definition digits_value (R : Z) (ds : list Z) : Z :=
  fold_left (fun acc d => acc * R + d) ds 0.

(** Steps 3-4: an optional sign. *)
Definition split_sign (s : js_string) : Z * js_string :=
  match s with
  | c :: r => if N.eqb c 45 then (-1, r) else if N.eqb c 43 then (1, r) else (1, s)
  | [] => (1, [])
  end.

(** Step 8: with no radix given, "0x" or "0X" selects radix 16. *)
Definition split_radix (s : js_string) : Z * js_string :=
  match s with
  | c0 :: c1 :: r =>
      if N.eqb c0 48 && (N.eqb c1 120 || N.eqb c1 88) then (16, r) else (10, s)
  | _ => (10, s)
  end.

Definition parseInt (s : js_string) : number :=
  let '(sign, s1) := split_sign (trim_start s) in
  let '(R, s2) := split_radix s1 in
  match radix_prefix R s2 with
  | [] => NaN
  | ds => Int (sign * digits_value R ds)
  end.

End JS.

Import JS.

(** ** Shapes of a path segment *)

(** A decimal digit, '0' to '9'. *)
Definition is_decimal_digit (c : code_unit) : bool :=
  (48 <=? Z.of_N c) && (Z.of_N c <=? 57).

Definition starts_with_digit (s : js_string) : bool :=
  match s with
  | c :: _ => is_decimal_digit c
  | [] => false
  end.

(** A numeric segment: a non-empty run of decimal digits and nothing else. *)
Definition is_numeric (s : js_string) : bool :=
  starts_with_digit s && forallb is_decimal_digit s.

(** The number a run of decimal digits denotes. *)
Definition decimal (ds : js_string) : Z :=
  fold_left (fun acc c => acc * 10 + (Z.of_N c - 48)) ds 0.

(** The segment opens with "0x" or "0X". *)
Definition hex_prefixed (s : js_string) : bool :=
  match s with
  | c0 :: c1 :: _ => N.eqb c0 48 && (N.eqb c1 120 || N.eqb c1 88)
  | _ => false
  end.

(** What is left of a segment after leading white space and one sign. *)
Definition after_sign (s : js_string) : js_string :=
  snd (split_sign (trim_start s)).


(** ** The user collection (server.js, lines 42-47 and 100-196) *)

Record user := mkUser { id : Z; name : jsval; email : jsval }.

(** The sample data, [const users = [...]]. *)
Definition seed : list user :=
  [ mkUser 1 (JStr "John Doe") (JStr "john@example.com");
    mkUser 2 (JStr "Jane Smith") (JStr "jane@example.com");
    mkUser 3 (JStr "Bob Johnson") (JStr "bob@example.com") ].

(** [const { name, email } = req.body]: the two keys the handlers read. *)
Record req_body := mkBody { body_name : jsval; body_email : jsval }.

(** The JSON the handlers send: the envelope's keys, each present or not. *)
Inductive payload :=
  | OneUser (u : user)
  | AllUsers (l : list user).

Record file_info := mkFileInfo {
  fi_filename : string;
  fi_mimetype : string;
  fi_size : N;
  fi_path : string
}.

Record response := mkResponse {
  status : Z;
  success : bool;
  message : option string;
  count : option nat;
  data : option payload;
  file : option file_info
}.

(** [res.status(404).json({ success: false, message: "User not found" })] *)
Definition user_not_found : response :=
  mkResponse 404 false (Some "User not found") None None None.

(** [res.status(400).json({ success: false, message: "Name and email are required" })] *)
Definition name_email_required : response :=
  mkResponse 400 false (Some "Name and email are required") None None None.

(** [(u) => u.id === id], with [id] the result of [parseInt]. *)
Definition has_id (n : number) (u : user) : Prop := Int (id u) = n.

Global Instance has_id_dec n u : Decision (has_id n u).
Proof. unfold has_id. apply _. Defined.

(** [users.find(...)]: the first match, or [undefined]. *)
Definition find (n : number) (users : list user) : option user :=
  snd <$> list_find (has_id n) users.

(** [users.findIndex(...)]: the index of the first match; [None] is -1. *)
Definition findIndex (n : number) (users : list user) : option nat :=
  fst <$> list_find (has_id n) users.

(** GET /api/users *)
Definition list_users (users : list user) : list user * response :=
  (users, mkResponse 200 true None (Some (length users)) (Some (AllUsers users)) None).

(** GET /api/users/:id *)
Definition get_user (users : list user) (id_param : js_string)
  : list user * response :=
  let id := parseInt id_param in
  match find id users with
  | None => (users, user_not_found)
  | Some u => (users, mkResponse 200 true None None (Some (OneUser u)) None)
  end.

(** POST /api/users *)
Definition create_user (users : list user) (body : req_body)
  : list user * response :=
  let name := body_name body in
  let email := body_email body in
  if negb (truthy name) || negb (truthy email) then (users, name_email_required)
  else
    let newUser := mkUser (Z.of_nat (length users) + 1) name email in
    (users ++ [newUser],
     mkResponse 201 true (Some "User created successfully") None
       (Some (OneUser newUser)) None).

Definition set_name (v : jsval) (u : user) : user := mkUser (id u) v (email u).
Definition set_email (v : jsval) (u : user) : user := mkUser (id u) (name u) v.

(** The two guarded assignments of the PUT handler, on one record. *)
Definition assign_fields (body : req_body) (u : user) : user :=
  let u1 := if truthy (body_name body) then set_name (body_name body) u else u in
  if truthy (body_email body) then set_email (body_email body) u1 else u1.

(** PUT /api/users/:id *)
Definition update_user (users : list user) (id_param : js_string) (body : req_body)
  : list user * response :=
  let id := parseInt id_param in
  match findIndex id users with
  | None => (users, user_not_found)
  | Some userIndex =>
      let name := body_name body in
      let email := body_email body in
      let users1 := if truthy name then alter (set_name name) userIndex users else users in
      let users2 := if truthy email then alter (set_email email) userIndex users1 else users1 in
      (users2,
       mkResponse 200 true (Some "User updated successfully") None
         (OneUser <$> users2 !! userIndex) None)
  end.

(** DELETE /api/users/:id; [splice(userIndex, 1)[0]] is the removed record. *)
Definition delete_user (users : list user) (id_param : js_string)
  : list user * response :=
  let id := parseInt id_param in
  match findIndex id users with
  | None => (users, user_not_found)
  | Some userIndex =>
      let deletedUser := users !! userIndex in
      (delete userIndex users,
       mkResponse 200 true (Some "User deleted successfully") None
         (OneUser <$> deletedUser) None)
  end.

(** Requests on the collection, and the handlers run in sequence. *)
Inductive request :=
  | GetAll
  | GetOne (id_param : js_string)
  | Post (body : req_body)
  | Put (id_param : js_string) (body : req_body)
  | Delete (id_param : js_string).

Definition handle (users : list user) (r : request) : list user * response :=
  match r with
  | GetAll => list_users users
  | GetOne p => get_user users p
  | Post b => create_user users b
  | Put p b => update_user users p b
  | Delete p => delete_user users p
  end.

Definition run (rs : list request) (users : list user) : list user :=
  fold_left (fun us r => fst (handle us r)) rs users.

(** The success responses of the four routes that send one record. *)
Definition found (u : user) : response :=
  mkResponse 200 true None None (Some (OneUser u)) None.
Definition updated (u : user) : response :=
  mkResponse 200 true (Some "User updated successfully") None (Some (OneUser u)) None.
Definition deleted (u : user) : response :=
  mkResponse 200 true (Some "User deleted successfully") None (Some (OneUser u)) None.
Definition created (u : user) : response :=
  mkResponse 201 true (Some "User created successfully") None (Some (OneUser u)) None.

Definition ids (users : list user) : list Z := id <$> users.

Definition is_delete (r : request) : bool :=
  match r with
  | Delete _ => true
  | _ => false
  end.

(** The ids are 1, 2, ..., the length of the array, in this order. *)
Definition consecutive (users : list user) : Prop :=
  ids users = seqZ 1 (Z.of_nat (length users)).

(** Collections reached from the seeds by requests. *)

Definition ann : req_body := mkBody (JStr "Ann") (JStr "ann@x.com").

(** The collection after DELETE /api/users/1 and one POST: ids 2, 3, 3. *)
Definition after_delete_create : list user :=
  run [Delete (str "1"); Post ann] seed.

(** Ten records: the seeds and seven users created after them. *)
Definition ten_users : list user :=
  run (replicate 7 (Post ann)) seed.

(** ** Vocabulary for the properties of the routes *)

(** What every record of the collection satisfies: a positive id and a
    truthy name and email. *)
Definition valid_record (u : user) : Prop :=
  1 ≤ id u ∧ truthy (name u) = true ∧ truthy (email u) = true.

Definition is_post (r : request) : bool :=
  match r with
  | Post _ => true
  | _ => false
  end.

(** The id of a record as [res.json] prints it, used as a path segment: the
    decimal numeral of a non-negative integer. *)
Definition segment_of_id (z : Z) : js_string := str (pretty (Z.to_N z)).

(** What a request does to the collection, read off its response: only a
    201 adds a record, only the 200 of a DELETE removes one. *)
Definition size_effect (users : list user) (r : request)
    (users' : list user) (resp : response) : Prop :=
  match r with
  | Post _ =>
      if status resp =? 201 then length users' = S (length users) else users' = users
  | Delete _ =>
      if status resp =? 200 then length users = S (length users') else users' = users
  | Put _ _ => length users' = length users
  | GetAll | GetOne _ => users' = users
  end.

(** ** The upload route (server.js, lines 9-37 and 68-98) *)

Module Upload.

(** The file part of the multipart field "image", as multer hands it to
    [fileFilter] and to the storage engine. *)
Record file_part := mkFile {
  originalname : string;
  mimetype : string;
  size : N
}.

(** What reaches the error-handling middleware: a [multer.MulterError] or
    another [Error], each with its [message]. *)
Inductive error :=
  | MulterError (code msg : string)
  | Error (msg : string).

(** [limits: { fileSize: 5 * 1024 * 1024 }] *)
Definition fileSize : N := 5 * 1024 * 1024.

Definition allowedTypes : list string := ["image/jpeg"; "image/png"; "image/gif"].

(** [fileFilter]: [cb(null, true)] is [inr true], [cb(new Error(...), false)]
    is [inl] of the error. *)
Definition fileFilter (f : file_part) : error + bool :=
  if bool_decide (mimetype f ∈ allowedTypes) then inr true
  else inl (Error "Invalid file type. Only JPEG, PNG, GIF are allowed.").

(** [filename]: [Date.now() + "-" + file.originalname]. *)
Definition filename (now : N) (f : file_part) : string :=
  (pretty now ++ "-" ++ originalname f)%string.

Section Routes.

(** [path.join(__dirname, "uploads")] *)
Variable uploadsDir : string.

(** The upload directory: file name to the size of what was written. *)
Definition directory := gmap string N.

(** Modelled from the spec: multer's [upload.single("image")] middleware, a
    dependency that is not under src/.  The MIME check runs first and a
    rejected file is not written; a file over the size ceiling is rejected and
    leaves nothing behind; otherwise the file is persisted under the name the
    storage engine computes and described in [req.file]; with no file part
    [req.file] stays undefined. *)
Definition multer_single (now : N) (dir : directory) (image : option file_part)
  : directory * (error + option file_info) :=
  match image with
  | None => (dir, inr None)
  | Some f =>
      match fileFilter f with
      | inl e => (dir, inl e)
      | inr false => (dir, inr None)
      | inr true =>
          if (fileSize <? size f)%N
          then (dir, inl (MulterError "LIMIT_FILE_SIZE" "File too large"))
          else
            let fname := filename now f in
            (<[fname := size f]> dir,
             inr (Some (mkFileInfo fname (mimetype f) (size f)
                          (uploadsDir ++ "/" ++ fname)%string)))
      end
  end.

(** The route's handler, [(req, res) => ...]. *)
Definition upload_handler (req_file : option file_info) : response :=
  match req_file with
  | None =>
      mkResponse 400 false (Some "No file uploaded or invalid file type.")
        None None None
  | Some fi =>
      mkResponse 200 true (Some "Image uploaded and health checked successfully!")
        None None (Some fi)
  end.

(** The route's error handler, [(error, req, res, next) => ...]. *)
Definition upload_error_handler (e : error) : response :=
  match e with
  | MulterError _ msg => mkResponse 400 false (Some msg) None None None
  | Error msg => mkResponse 400 false (Some msg) None None None
  end.

(** POST /api/upload: the middleware, then the handler, or the error
    handler when the middleware passed an error on. *)
Definition post_upload (now : N) (dir : directory) (image : option file_part)
  : directory * response :=
  let '(dir', r) := multer_single now dir image in
  match r with
  | inl e => (dir', upload_error_handler e)
  | inr req_file => (dir', upload_handler req_file)
  end.

End Routes.

End Upload.

(** ** Checks of the embedding on concrete inputs *)

Example parseInt_2 : parseInt (str "2") = Int 2.
Proof. reflexivity. Qed.
Example parseInt_2abc : parseInt (str "2abc") = Int 2.
Proof. reflexivity. Qed.
Example parseInt_abc : parseInt (str "abc") = NaN.
Proof. reflexivity. Qed.
Example parseInt_hex : parseInt (str "0x1f") = Int 31.
Proof. reflexivity. Qed.
Example parseInt_neg : parseInt (str " -42px") = Int (-42).
Proof. reflexivity. Qed.
Example parseInt_0x : parseInt (str "0x") = NaN.
Proof. reflexivity. Qed.

(** ** Number.parseInt on path segments *)

Module ParseFacts.

Ltac bool_arith :=
  repeat match goal with
  | H : _ && _ = true |- _ => apply andb_true_iff in H; destruct H
  | H : _ || _ = false |- _ => apply orb_false_iff in H; destruct H
  | H : (_ <=? _) = true |- _ => apply Z.leb_le in H
  | H : (_ <=? _) = false |- _ => apply Z.leb_gt in H
  | H : (_ <? _) = true |- _ => apply Z.ltb_lt in H
  | H : (_ <? _) = false |- _ => apply Z.ltb_ge in H
  | H : (_ =? _) = true |- _ => apply Z.eqb_eq in H
  | H : (_ =? _) = false |- _ => apply Z.eqb_neq in H
  | H : N.eqb _ _ = true |- _ => apply N.eqb_eq in H
  | H : N.eqb _ _ = false |- _ => apply N.eqb_neq in H
  end.

Lemma digit_of_decimal c :
  is_decimal_digit c = true → digit_of c = Some (Z.of_N c - 48).
Proof. unfold is_decimal_digit, digit_of. intros H. by rewrite H. Qed.

Lemma radix_digit_decimal c :
  is_decimal_digit c = true → radix_digit 10 c = Some (Z.of_N c - 48).
Proof.
  intros H. unfold radix_digit. rewrite (digit_of_decimal c H).
  unfold is_decimal_digit in H. bool_arith.
  by rewrite (proj2 (Z.ltb_lt _ _)) by lia.
Qed.

Lemma radix_digit_not_decimal c :
  is_decimal_digit c = false → radix_digit 10 c = None.
Proof.
  unfold is_decimal_digit, radix_digit, digit_of. intros ->.
  destruct ((97 <=? Z.of_N c) && (Z.of_N c <=? 122)) eqn:Hl;
    [| destruct ((65 <=? Z.of_N c) && (Z.of_N c <=? 90)) eqn:Hu; [| done]];
    bool_arith; by rewrite (proj2 (Z.ltb_ge _ _)) by lia.
Qed.

Lemma decimal_not_white_space c :
  is_decimal_digit c = true → is_white_space c = false.
Proof.
  unfold is_decimal_digit, is_white_space. intros H. bool_arith.
  repeat (apply orb_false_iff; split); try (apply Z.eqb_neq; lia).
  apply andb_false_iff. left. apply Z.leb_gt. lia.
Qed.

Lemma trim_start_digit s :
  starts_with_digit s = true → trim_start s = s.
Proof.
  destruct s as [| c r]; [done |]. simpl. intros H.
  by rewrite (decimal_not_white_space c H).
Qed.

Lemma split_sign_digit s :
  starts_with_digit s = true → split_sign s = (1, s).
Proof.
  destruct s as [| c r]; [done |]. simpl. unfold is_decimal_digit. intros H.
  bool_arith.
  destruct (N.eqb_spec c 45) as [-> |]; [simpl in *; lia |].
  destruct (N.eqb_spec c 43) as [-> |]; [simpl in *; lia | done].
Qed.

Lemma split_radix_plain s :
  hex_prefixed s = false → split_radix s = (10, s).
Proof.
  destruct s as [| c0 [| c1 r]]; [done.. |]. simpl. by intros ->.
Qed.

(** Without a leading digit there is nothing for radix 10 to read, and the
    hexadecimal prefix cannot apply either: it starts with the digit 0. *)
Lemma no_digit_no_radix_prefix s :
  starts_with_digit s = false →
  ∃ R s', split_radix s = (R, s') ∧ radix_prefix R s' = [].
Proof.
  intros H. exists 10, s. split.
  - apply split_radix_plain. destruct s as [| c0 [| c1 r]]; [done.. |].
    simpl in *. destruct (N.eqb_spec c0 48) as [-> |]; [done | done].
  - destruct s as [| c r]; [done |]. simpl in *.
    by rewrite (radix_digit_not_decimal c H).
Qed.

Lemma radix_prefix_decimal ds rest :
  forallb is_decimal_digit ds = true →
  starts_with_digit rest = false →
  radix_prefix 10 (ds ++ rest) = (fun c => Z.of_N c - 48) <$> ds.
Proof.
  intros Hds Hrest. induction ds as [| c ds IH]; simpl in *.
  - destruct rest as [| c r]; [done |]. simpl in *.
    by rewrite (radix_digit_not_decimal c Hrest).
  - bool_arith. rewrite radix_digit_decimal by done. by rewrite IH.
Qed.

Lemma digits_value_decimal_from ds acc :
  fold_left (fun a d => a * 10 + d) ((fun c => Z.of_N c - 48) <$> ds) acc
  = fold_left (fun a c => a * 10 + (Z.of_N c - 48)) ds acc.
Proof. revert acc. induction ds as [| c ds IH]; intros acc; simpl; [done | apply IH]. Qed.

Lemma digits_value_decimal ds :
  digits_value 10 ((fun c => Z.of_N c - 48) <$> ds) = decimal ds.
Proof. apply digits_value_decimal_from. Qed.

(** A run of digits followed by a non-digit, with no hexadecimal prefix,
    parses to the value of the run. *)
Lemma parseInt_decimal_prefix ds rest :
  is_numeric ds = true →
  starts_with_digit rest = false →
  hex_prefixed (ds ++ rest) = false →
  parseInt (ds ++ rest) = Int (decimal ds).
Proof.
  unfold is_numeric. intros Hds Hrest Hhex. bool_arith.
  assert (starts_with_digit (ds ++ rest) = true) as Hstart
    by (by destruct ds).
  unfold parseInt.
  rewrite (trim_start_digit _ Hstart), (split_sign_digit _ Hstart).
  rewrite (split_radix_plain _ Hhex), radix_prefix_decimal by done.
  destruct ds as [| c ds]; [done |].
  rewrite <- digits_value_decimal. simpl fmap.
  f_equal. lia.
Qed.

Lemma numeric_not_hex_prefixed ds :
  is_numeric ds = true → hex_prefixed ds = false.
Proof.
  unfold is_numeric. intros H. bool_arith.
  destruct ds as [| c0 [| c1 r]]; [done.. |]. simpl in *. bool_arith.
  unfold is_decimal_digit in *. bool_arith.
  apply andb_false_iff. right. apply orb_false_iff.
  split; apply N.eqb_neq; lia.
Qed.

Lemma parseInt_numeric ds :
  is_numeric ds = true → parseInt ds = Int (decimal ds).
Proof.
  intros H. rewrite <- (app_nil_r ds) at 1.
  apply parseInt_decimal_prefix; [done | done |].
  rewrite app_nil_r. by apply numeric_not_hex_prefixed.
Qed.

(** With no digit after the white space and the sign, the result is NaN. *)
Lemma parseInt_no_digit s :
  starts_with_digit (after_sign s) = false → parseInt s = NaN.
Proof.
  unfold after_sign, parseInt. destruct (split_sign (trim_start s)) as [sign s1].
  simpl. intros H.
  destruct (no_digit_no_radix_prefix s1 H) as (R & s' & -> & ->). done.
Qed.

End ParseFacts.

(** ** The handlers of the collection, by the first record that matches *)

Module Collection.

Implicit Types (users : list user) (u : user) (n : number) (p : js_string).

Lemma alter_at {A} (f : A → A) (l : list A) i x :
  l !! i = Some x → alter f i l = <[i := f x]> l.
Proof.
  revert i. induction l as [| y l IH]; intros [| i] H; simplify_eq/=; [done |].
  f_equal. by apply IH.
Qed.

(** The first match splits the array around it, and conversely. *)
Lemma list_find_first users n l1 u l2 :
  users = l1 ++ u :: l2 → has_id n u → Forall (fun v => ¬ has_id n v) l1 →
  list_find (has_id n) users = Some (length l1, u).
Proof.
  intros -> Hu Hl1. apply list_find_Some. split_and!.
  - by rewrite list_lookup_middle.
  - done.
  - intros j y Hj Hlt. rewrite lookup_app_l in Hj by done.
    by eapply Forall_lookup_1 in Hl1.
Qed.

Lemma list_find_split users n i u :
  list_find (has_id n) users = Some (i, u) →
  users = take i users ++ u :: drop (S i) users
  ∧ length (take i users) = i
  ∧ has_id n u
  ∧ Forall (fun v => ¬ has_id n v) (take i users).
Proof.
  intros (Hi & Hu & Hfirst)%list_find_Some.
  pose proof (lookup_lt_Some _ _ _ Hi) as Hlt. split_and!.
  - by rewrite take_drop_middle.
  - rewrite length_take. lia.
  - done.
  - apply Forall_lookup. intros j y Hj.
    pose proof (lookup_lt_Some _ _ _ Hj) as Hjlt. rewrite length_take in Hjlt.
    rewrite lookup_take_lt in Hj by lia. apply (Hfirst j); [done | lia].
Qed.

(** An id that occurs in the array is found. *)
Lemma list_find_present users (z : Z) :
  z ∈ ids users → ∃ i u, list_find (has_id (Int z)) users = Some (i, u).
Proof.
  intros (u & -> & Hu)%list_elem_of_fmap.
  destruct (list_find_elem_of (has_id (Int (id u))) users u Hu) as [[i v] H];
    [done | eauto].
Qed.

(** NaN is equal to no id. *)
Lemma list_find_NaN users : list_find (has_id NaN) users = None.
Proof. apply list_find_None, Forall_forall. by intros u _. Qed.

Lemma get_user_spec users p :
  get_user users p =
    match list_find (has_id (parseInt p)) users with
    | Some (_, u) => (users, found u)
    | None => (users, user_not_found)
    end.
Proof.
  unfold get_user, find. by destruct (list_find _ _) as [[i u] |].
Qed.

Lemma update_user_spec users p body :
  update_user users p body =
    match list_find (has_id (parseInt p)) users with
    | Some (i, u) =>
        (<[i := assign_fields body u]> users, updated (assign_fields body u))
    | None => (users, user_not_found)
    end.
Proof.
  unfold update_user, findIndex.
  destruct (list_find _ _) as [[i u] |] eqn:Hfind; [| done]. simpl.
  apply list_find_Some in Hfind as (Hi & _ & _).
  pose proof (lookup_lt_Some _ _ _ Hi) as Hlt.
  unfold assign_fields, updated.
  destruct (truthy (body_name body)), (truthy (body_email body)).
  - rewrite (alter_at _ users i u Hi).
    rewrite (alter_at _ _ i (set_name (body_name body) u))
      by (by apply list_lookup_insert_eq).
    rewrite list_insert_insert_eq.
    by rewrite list_lookup_insert_eq.
  - rewrite (alter_at _ users i u Hi). by rewrite list_lookup_insert_eq.
  - rewrite (alter_at _ users i u Hi). by rewrite list_lookup_insert_eq.
  - rewrite list_insert_id by done. by rewrite Hi.
Qed.

Lemma delete_user_spec users p :
  delete_user users p =
    match list_find (has_id (parseInt p)) users with
    | Some (i, u) => (delete i users, deleted u)
    | None => (users, user_not_found)
    end.
Proof.
  unfold delete_user, findIndex.
  destruct (list_find _ _) as [[i u] |] eqn:Hfind; [| done]. simpl.
  apply list_find_Some in Hfind as (Hi & _ & _). by rewrite Hi.
Qed.

End Collection.

Import ParseFacts Collection.

(** ** Creating a user *)

(** C1: for every state of the collection and every body whose name and
    email are truthy, POST /api/users answers 201, appends one record whose
    id is the size of the collection before the insert plus one, and sends
    that record as the response data. *)
Theorem create_user_appends (users : list user) (body : req_body) :
  truthy (body_name body) = true →
  truthy (body_email body) = true →
  ∃ newUser,
    create_user users body = (users ++ [newUser], created newUser)
    ∧ status (snd (create_user users body)) = 201
    ∧ data (snd (create_user users body)) = Some (OneUser newUser)
    ∧ id newUser = Z.of_nat (length users) + 1
    ∧ name newUser = body_name body
    ∧ email newUser = body_email body.
Proof.
  intros Hname Hemail.
  exists (mkUser (Z.of_nat (length users) + 1) (body_name body) (body_email body)).
  unfold create_user. rewrite Hname, Hemail. simpl. by split_and!.
Qed.

Lemma create_user_appends_witness :
  ∃ newUser,
    create_user seed (mkBody (JStr "Ann") (JStr "ann@x.com"))
      = (seed ++ [newUser], created newUser)
    ∧ status (snd (create_user seed (mkBody (JStr "Ann") (JStr "ann@x.com")))) = 201
    ∧ data (snd (create_user seed (mkBody (JStr "Ann") (JStr "ann@x.com"))))
      = Some (OneUser newUser)
    ∧ id newUser = Z.of_nat (length seed) + 1
    ∧ name newUser = JStr "Ann"
    ∧ email newUser = JStr "ann@x.com".
Proof.
  apply (create_user_appends seed (mkBody (JStr "Ann") (JStr "ann@x.com")));
    reflexivity.
Defined.

(** C6: for every POST /api/users whose name or email is missing or falsy,
    the answer is 400 with [{success: false, message: "Name and email are
    required"}] and the collection is the one before the request. *)
Theorem create_user_rejects (users : list user) (body : req_body) :
  truthy (body_name body) = false ∨ truthy (body_email body) = false →
  create_user users body
  = (users, mkResponse 400 false (Some "Name and email are required") None None None).
Proof.
  unfold create_user. by intros [-> | ->]; [| rewrite orb_true_r].
Qed.

(** The scenario of the specification: Ann is created, id 2 deleted, and a
    body with no email is refused on the three records that remain. *)
Lemma create_user_rejects_witness :
  let users := run [Post (mkBody (JStr "Ann") (JStr "ann@x.com")); Delete (str "2")] seed in
  length users = 3%nat
  ∧ create_user users (mkBody (JStr "Bo") JUndefined)
    = (users, mkResponse 400 false (Some "Name and email are required") None None None).
Proof.
  split; [reflexivity |].
  apply (create_user_rejects _ (mkBody (JStr "Bo") JUndefined)).
  right. reflexivity.
Defined.

(** ** Updating a user *)

(** What a partial PUT does on every state: when the id of the request
    occurs in the collection, a PUT whose body has only a (truthy) name
    replaces the name of the record that findIndex selects, the first with
    that id, and keeps its email; a PUT whose body has only a (truthy) email
    replaces the email and keeps the name; the response carries the record as
    updated. *)
Lemma update_user_partial (users : list user) (p : js_string) (z : Z) (v : jsval) :
  parseInt p = Int z →
  z ∈ ids users →
  truthy v = true →
  ∃ i u,
    findIndex (parseInt p) users = Some i
    ∧ users !! i = Some u ∧ id u = z
    ∧ update_user users p (mkBody v JUndefined)
      = (<[i := mkUser (id u) v (email u)]> users,
         updated (mkUser (id u) v (email u)))
    ∧ update_user users p (mkBody JUndefined v)
      = (<[i := mkUser (id u) (name u) v]> users,
         updated (mkUser (id u) (name u) v)).
Proof.
  intros Hp Hz Hv.
  destruct (list_find_present users z Hz) as (i & u & Hfind).
  exists i, u. unfold findIndex. rewrite !update_user_spec, Hp, Hfind.
  apply list_find_Some in Hfind as (Hi & Hid & _).
  unfold has_id in Hid. injection Hid as Hid.
  unfold assign_fields, set_name, set_email. simpl. rewrite Hv.
  by destruct u.
Qed.

(** C10: a PUT that succeeds keeps the length of the collection, keeps the
    id of the record it targets, and keeps every other record as it was; of
    the targeted record only the name and the email can differ, and each is
    either the old value or the one of the body. *)
Theorem update_user_frame (users users' : list user) (p : js_string)
    (body : req_body) (r : response) :
  update_user users p body = (users', r) →
  status r = 200 →
  length users' = length users
  ∧ ∃ i u u',
      findIndex (parseInt p) users = Some i
      ∧ users !! i = Some u ∧ users' !! i = Some u'
      ∧ id u' = id u
      ∧ (name u' = name u ∨ name u' = body_name body)
      ∧ (email u' = email u ∨ email u' = body_email body)
      ∧ ∀ j, j ≠ i → users' !! j = users !! j.
Proof.
  rewrite update_user_spec. unfold findIndex.
  destruct (list_find _ _) as [[i u] |] eqn:Hfind; intros [= <- <-] Hstatus;
    [| done].
  apply list_find_Some in Hfind as (Hi & _ & _).
  pose proof (lookup_lt_Some _ _ _ Hi) as Hlt.
  split; [apply length_insert |].
  exists i, u, (assign_fields body u). split_and!; [done | done | | | | |].
  - by apply list_lookup_insert_eq.
  - unfold assign_fields. by destruct (truthy _), (truthy _).
  - unfold assign_fields. destruct (truthy _), (truthy _); simpl; auto.
  - unfold assign_fields. destruct (truthy _), (truthy _); simpl; auto.
  - intros j Hj. by apply list_lookup_insert_ne.
Qed.

Lemma update_user_frame_witness :
  length (fst (update_user seed (str "3") (mkBody (JStr "Rob") JNull))) = length seed
  ∧ ∃ i u u',
      findIndex (parseInt (str "3")) seed = Some i
      ∧ seed !! i = Some u
      ∧ fst (update_user seed (str "3") (mkBody (JStr "Rob") JNull)) !! i = Some u'
      ∧ id u' = id u
      ∧ (name u' = name u ∨ name u' = JStr "Rob")
      ∧ (email u' = email u ∨ email u' = JNull)
      ∧ ∀ j, j ≠ i →
          fst (update_user seed (str "3") (mkBody (JStr "Rob") JNull)) !! j = seed !! j.
Proof.
  apply (update_user_frame seed _ (str "3") (mkBody (JStr "Rob") JNull)
           (snd (update_user seed (str "3") (mkBody (JStr "Rob") JNull))));
    reflexivity.
Defined.

(** ** The id of a request, read by parseInt *)

(** C5, as stated, fails: "2abc" is not a numeric segment, yet parseInt
    reads its leading 2 and GET /api/users/2abc answers with record 2. *)
Lemma get_user_non_numeric_found :
  is_numeric (str "2abc") = false
  ∧ parseInt (str "2abc") = Int 2
  ∧ get_user seed (str "2abc")
    = (seed, found (mkUser 2 (JStr "Jane Smith") (JStr "jane@example.com")))
  ∧ snd (get_user seed (str "2abc")) ≠ user_not_found.
Proof. by split_and!. Qed.

(** C5, amended: when the :id segment, after its leading white space and at
    most one sign, does not start with a decimal digit, parseInt yields NaN,
    NaN matches no record, and GET /api/users/:id answers 404 with
    [{success: false, message: "User not found"}], whatever the collection. *)
Theorem get_user_no_digit_not_found (users : list user) (p : js_string) :
  starts_with_digit (after_sign p) = false →
  parseInt p = NaN
  ∧ find (parseInt p) users = None
  ∧ get_user users p
    = (users, mkResponse 404 false (Some "User not found") None None None).
Proof.
  intros Hp. rewrite get_user_spec. unfold find.
  rewrite (parseInt_no_digit p Hp), list_find_NaN. done.
Qed.

Lemma get_user_no_digit_not_found_witness :
  parseInt (str "abc") = NaN
  ∧ find (parseInt (str "abc")) seed = None
  ∧ get_user seed (str "abc")
    = (seed, mkResponse 404 false (Some "User not found") None None None).
Proof.
  apply (get_user_no_digit_not_found seed (str "abc")). reflexivity.
Defined.

(** C8, as stated, fails: "0xa" is the digit 0 followed by the non-digits
    "xa", yet parseInt reads it in radix 16 as 10, not as its leading 0; on
    a collection of ten records GET /api/users/0xa answers with record 10,
    while GET /api/users/0 is not found.  Likewise "0x" parses to NaN. *)
Lemma hex_segment_not_its_prefix :
  str "0xa" = str "0" ++ str "xa"
  ∧ is_numeric (str "0") = true
  ∧ forallb (fun c => negb (is_decimal_digit c)) (str "xa") = true
  ∧ decimal (str "0") = 0
  ∧ parseInt (str "0xa") = Int 10
  ∧ parseInt (str "0x") = NaN
  ∧ get_user ten_users (str "0xa")
    = (ten_users, found (mkUser 10 (JStr "Ann") (JStr "ann@x.com")))
  ∧ get_user ten_users (str "0") = (ten_users, user_not_found).
Proof. by split_and!. Qed.

(** C8, amended: when the :id segment is a run of decimal digits followed by
    a character that is not a decimal digit, and does not open with "0x" or
    "0X", parseInt yields the value of the run; GET, PUT and DELETE then do
    exactly what they do on the run alone, and when a record has that id
    each of them finds one: none answers not-found. *)
Theorem id_prefix_requests (users : list user) (ds rest : js_string) (body : req_body) :
  is_numeric ds = true →
  starts_with_digit rest = false →
  hex_prefixed (ds ++ rest) = false →
  parseInt (ds ++ rest) = Int (decimal ds)
  ∧ get_user users (ds ++ rest) = get_user users ds
  ∧ update_user users (ds ++ rest) body = update_user users ds body
  ∧ delete_user users (ds ++ rest) = delete_user users ds
  ∧ (decimal ds ∈ ids users →
     ∃ i u,
       users !! i = Some u ∧ id u = decimal ds
       ∧ get_user users (ds ++ rest) = (users, found u)
       ∧ update_user users (ds ++ rest) body
         = (<[i := assign_fields body u]> users, updated (assign_fields body u))
       ∧ delete_user users (ds ++ rest) = (delete i users, deleted u)).
Proof.
  intros Hds Hrest Hhex.
  pose proof (parseInt_decimal_prefix ds rest Hds Hrest Hhex) as Hp.
  pose proof (parseInt_numeric ds Hds) as Hq.
  split_and!; [done | | | |].
  - by rewrite !get_user_spec, Hp, Hq.
  - by rewrite !update_user_spec, Hp, Hq.
  - by rewrite !delete_user_spec, Hp, Hq.
  - intros Hin. destruct (list_find_present users _ Hin) as (i & u & Hfind).
    exists i, u. rewrite get_user_spec, update_user_spec, delete_user_spec.
    rewrite Hp, Hfind.
    apply list_find_Some in Hfind as (Hi & Hid & _).
    unfold has_id in Hid. injection Hid as Hid. done.
Qed.

Lemma id_prefix_requests_witness :
  parseInt (str "2" ++ str "abc") = Int (decimal (str "2"))
  ∧ get_user seed (str "2" ++ str "abc") = get_user seed (str "2")
  ∧ update_user seed (str "2" ++ str "abc") (mkBody (JStr "Janet") JUndefined)
    = update_user seed (str "2") (mkBody (JStr "Janet") JUndefined)
  ∧ delete_user seed (str "2" ++ str "abc") = delete_user seed (str "2")
  ∧ (decimal (str "2") ∈ ids seed →
     ∃ i u,
       seed !! i = Some u ∧ id u = decimal (str "2")
       ∧ get_user seed (str "2" ++ str "abc") = (seed, found u)
       ∧ update_user seed (str "2" ++ str "abc") (mkBody (JStr "Janet") JUndefined)
         = (<[i := assign_fields (mkBody (JStr "Janet") JUndefined) u]> seed,
            updated (assign_fields (mkBody (JStr "Janet") JUndefined) u))
       ∧ delete_user seed (str "2" ++ str "abc") = (delete i seed, deleted u)).
Proof.
  apply (id_prefix_requests seed (str "2") (str "abc")
           (mkBody (JStr "Janet") JUndefined)); reflexivity.
Defined.

(** ** Duplicate ids *)

(** C9: the first record, in the order of the collection, that carries the
    id of the request is the one GET returns, the only one PUT changes and
    the only one DELETE removes; the records before it and after it, later
    records with the same id among them, stay as they are and where they
    are. *)
Theorem first_match_selected (users l1 l2 : list user) (u : user)
    (p : js_string) (z : Z) (body : req_body) :
  parseInt p = Int z →
  users = l1 ++ u :: l2 →
  id u = z →
  Forall (fun v => id v ≠ z) l1 →
  get_user users p = (users, found u)
  ∧ update_user users p body
    = (l1 ++ assign_fields body u :: l2, updated (assign_fields body u))
  ∧ delete_user users p = (l1 ++ l2, deleted u).
Proof.
  intros Hp Husers Hu Hl1.
  assert (list_find (has_id (Int z)) users = Some (length l1, u)) as Hfind.
  { apply (list_find_first users (Int z) l1 u l2 Husers).
    - unfold has_id. by rewrite Hu.
    - eapply Forall_impl; [exact Hl1 |]. unfold has_id. intros v Hv [=]. done. }
  rewrite get_user_spec, update_user_spec, delete_user_spec, Hp, Hfind.
  subst users. split_and!; [done | |].
  - f_equal. rewrite <- (Nat.add_0_r (length l1)). by rewrite insert_app_r.
  - by rewrite delete_middle.
Qed.

Lemma first_match_selected_witness :
  let bob := mkUser 3 (JStr "Bob Johnson") (JStr "bob@example.com") in
  let jane := mkUser 2 (JStr "Jane Smith") (JStr "jane@example.com") in
  let ann3 := mkUser 3 (JStr "Ann") (JStr "ann@x.com") in
  let body := mkBody (JStr "Rob") JUndefined in
  ids after_delete_create = [2; 3; 3]
  ∧ get_user after_delete_create (str "3") = (after_delete_create, found bob)
  ∧ update_user after_delete_create (str "3") body
    = ([jane] ++ assign_fields body bob :: [ann3], updated (assign_fields body bob))
  ∧ delete_user after_delete_create (str "3") = ([jane] ++ [ann3], deleted bob).
Proof.
  intros bob jane ann3 body. split; [reflexivity |].
  apply (first_match_selected after_delete_create [jane] [ann3] bob (str "3") 3 body).
  - reflexivity.
  - reflexivity.
  - reflexivity.
  - apply Forall_cons. split; [| apply Forall_nil_2]. simpl. lia.
Defined.

(** C2 at its failing input: after DELETE /api/users/1 the array has two
    records, so the next POST assigns id 3, which record 3 already has. *)
Lemma ids_collide_after_delete_create :
  NoDup (ids seed)
  ∧ ids after_delete_create = [2; 3; 3]
  ∧ ¬ NoDup (ids after_delete_create).
Proof.
  split_and!.
  - exact (bool_decide_unpack (NoDup (ids seed)) I).
  - reflexivity.
  - intros H. change (ids after_delete_create) with [2; 3; 3] in H.
    apply NoDup_cons in H as [_ H]. apply NoDup_cons in H as [H _].
    apply H. by left.
Qed.

(** C4 at its failing input: on the collection with ids 2, 3, 3, DELETE
    /api/users/3 removes the first record 3 and the GET /api/users/3 that
    follows answers 200 with the second. *)
Lemma get_after_delete_finds_duplicate :
  let users' := fst (delete_user after_delete_create (str "3")) in
  delete_user after_delete_create (str "3")
  = (users', deleted (mkUser 3 (JStr "Bob Johnson") (JStr "bob@example.com")))
  ∧ length users' = 2%nat
  ∧ get_user users' (str "3")
    = (users', found (mkUser 3 (JStr "Ann") (JStr "ann@x.com")))
  ∧ status (snd (get_user users' (str "3"))) = 200.
Proof. by split_and!. Qed.

(** C3 at its failing input: on the collection with ids 2, 3, 3 the record
    of Ann is present with id 3, yet PUT /api/users/3 with only a name
    overwrites the name of Bob, the first record with id 3, and returns Bob;
    the name of Ann is not overwritten. *)
Lemma put_skips_later_duplicate :
  let jane := mkUser 2 (JStr "Jane Smith") (JStr "jane@example.com") in
  let ann3 := mkUser 3 (JStr "Ann") (JStr "ann@x.com") in
  let rob := mkUser 3 (JStr "Rob") (JStr "bob@example.com") in
  after_delete_create !! 2%nat = Some ann3
  ∧ update_user after_delete_create (str "3") (mkBody (JStr "Rob") JUndefined)
    = ([jane; rob; ann3], updated rob)
  ∧ fst (update_user after_delete_create (str "3") (mkBody (JStr "Rob") JUndefined))
      !! 2%nat = Some ann3
  ∧ name ann3 ≠ JStr "Rob".
Proof. by split_and!. Qed.

(** ** Uploading a file *)

Import Upload.

(** C7: for every upload whose file has a MIME type other than image/jpeg,
    image/png and image/gif, the answer is 400 with the message of the
    filter's error, and the upload directory is what it was: no file is
    persisted. *)
Theorem upload_rejects_type (uploadsDir : string) (now : N) (dir : directory)
    (f : file_part) :
  mimetype f ∉ allowedTypes →
  post_upload uploadsDir now dir (Some f)
  = (dir,
     mkResponse 400 false
       (Some "Invalid file type. Only JPEG, PNG, GIF are allowed.")
       None None None).
Proof.
  intros Hmime. unfold post_upload, multer_single, fileFilter.
  by rewrite bool_decide_eq_false_2.
Qed.

Lemma upload_rejects_type_witness :
  post_upload "/myapp/uploads" 1700000000000 ∅ (Some (mkFile "notes.txt" "text/plain" 12))
  = (∅,
     mkResponse 400 false
       (Some "Invalid file type. Only JPEG, PNG, GIF are allowed.")
       None None None).
Proof.
  apply (upload_rejects_type "/myapp/uploads" 1700000000000 ∅
           (mkFile "notes.txt" "text/plain" 12)).
  exact (bool_decide_unpack ("text/plain" ∉ allowedTypes) I).
Defined.

(** ** Where the ids stay distinct, and what DELETE does on every state *)

Module Uniqueness.

Lemma assign_fields_id body u : id (assign_fields body u) = id u.
Proof. unfold assign_fields. by destruct (truthy _), (truthy _). Qed.

(** PUT leaves the list of ids as it is. *)
Lemma update_user_ids users p body :
  ids (fst (update_user users p body)) = ids users.
Proof.
  rewrite update_user_spec.
  destruct (list_find _ _) as [[i u] |] eqn:Hfind; [| done]. simpl.
  apply list_find_Some in Hfind as (Hi & _ & _).
  unfold ids. rewrite list_fmap_insert, assign_fields_id.
  apply list_insert_id. by rewrite list_lookup_fmap, Hi.
Qed.

Lemma update_user_length users p body :
  length (fst (update_user users p body)) = length users.
Proof.
  rewrite update_user_spec.
  destruct (list_find _ _) as [[i u] |]; [apply length_insert | done].
Qed.

(** DELETE keeps distinct ids distinct. *)
Lemma delete_user_NoDup users p :
  NoDup (ids users) → NoDup (ids (fst (delete_user users p))).
Proof.
  intros Hnd. rewrite delete_user_spec.
  destruct (list_find _ _) as [[i u] |]; [| done]. simpl.
  unfold ids. rewrite list_fmap_delete.
  eapply sublist_NoDup; [exact Hnd | apply sublist_delete].
Qed.

Lemma consecutive_NoDup users : consecutive users → NoDup (ids users).
Proof. intros ->. apply NoDup_seqZ. Qed.

Lemma consecutive_seed : consecutive seed.
Proof. reflexivity. Qed.

(** Without a DELETE the ids stay 1..length: POST appends length + 1. *)
Lemma handle_consecutive users r :
  is_delete r = false → consecutive users → consecutive (fst (handle users r)).
Proof.
  unfold consecutive. intros Hr Hc. destruct r as [| p | body | p body | p];
    simpl in *; [done | | | | done].
  - rewrite get_user_spec. by destruct (list_find _ _) as [[i u] |].
  - unfold create_user. destruct (_ || _); [done |]. simpl.
    unfold ids in *. rewrite fmap_app, length_app, Hc. simpl.
    rewrite Nat.add_1_r, seqZ_S. do 2 f_equal. lia.
  - by rewrite update_user_ids, update_user_length.
Qed.

Lemma run_consecutive rs users :
  Forall (fun r => is_delete r = false) rs →
  consecutive users → consecutive (run rs users).
Proof.
  intros Hrs. revert users. induction Hrs as [| r rs Hr _ IH]; intros users Hc;
    [done |].
  simpl. apply IH. by apply handle_consecutive.
Qed.

(** On every state, DELETE of an id that occurs removes the first record
    with that id, keeps the others in order, and sends the removed one. *)
Lemma delete_user_removes_one users p z :
  parseInt p = Int z → z ∈ ids users →
  ∃ l1 u l2,
    users = l1 ++ u :: l2 ∧ id u = z ∧ Forall (fun v => id v ≠ z) l1
    ∧ delete_user users p = (l1 ++ l2, deleted u)
    ∧ length users = S (length (l1 ++ l2)).
Proof.
  intros Hp Hz. destruct (list_find_present users z Hz) as (i & u & Hfind).
  destruct (list_find_split users _ i u Hfind) as (Hsplit & Hlen & Hu & Hl1).
  exists (take i users), u, (drop (S i) users).
  unfold has_id in Hu. injection Hu as Hu.
  rewrite delete_user_spec, Hp, Hfind, delete_take_drop. split_and!; try done.
  - eapply Forall_impl; [exact Hl1 |]. unfold has_id. simpl. intros v Hv Hid.
    apply Hv. by rewrite Hid.
  - rewrite Hsplit at 1. rewrite !length_app. simpl. lia.
Qed.

(** While the ids are distinct, the deleted id is gone for the next GET. *)
Lemma get_after_delete_unique users p z :
  parseInt p = Int z → z ∈ ids users → NoDup (ids users) →
  get_user (fst (delete_user users p)) p
  = (fst (delete_user users p), user_not_found).
Proof.
  intros Hp Hz Hnd.
  destruct (delete_user_removes_one users p z Hp Hz)
    as (l1 & u & l2 & -> & Hu & Hl1 & -> & _).
  simpl. rewrite get_user_spec, Hp.
  assert (list_find (has_id (Int z)) (l1 ++ l2) = None) as ->; [| done].
  apply list_find_None, Forall_app. unfold ids in Hnd.
  rewrite fmap_app, fmap_cons in Hnd.
  apply NoDup_app in Hnd as (_ & _ & Hnd). apply NoDup_cons in Hnd as [Hnotin _].
  split.
  - eapply Forall_impl; [exact Hl1 |]. unfold has_id. intros v Hv [=]. done.
  - apply Forall_forall. intros v Hv. unfold has_id. intros [= Hid].
    apply Hnotin. rewrite Hu, <- Hid. by apply list_elem_of_fmap_2.
Qed.

End Uniqueness.

(** * Further properties of the routes *)

(** ** Responses and what they say about the collection *)

(** X1: a request answered with a client error (status 400 or above) leaves
    the collection exactly as it was, on all five routes. *)
Theorem error_leaves_collection (users : list user) (r : request) :
  400 ≤ status (snd (handle users r)) →
  fst (handle users r) = users.
Proof.
  destruct r as [| p | body | p body | p]; simpl; [done | | | |].
  - rewrite get_user_spec. by destruct (list_find _ _) as [[i u] |].
  - unfold create_user. destruct (_ || _); [done |]. simpl. lia.
  - rewrite update_user_spec. destruct (list_find _ _) as [[i u] |]; [| done].
    simpl. lia.
  - rewrite delete_user_spec. destruct (list_find _ _) as [[i u] |]; [| done].
    simpl. lia.
Qed.

Lemma error_leaves_collection_witness :
  fst (handle seed (Delete (str "9"))) = seed.
Proof.
  apply (error_leaves_collection seed (Delete (str "9"))). vm_compute. congruence.
Defined.

(** X2: every response of the five routes has status 200, 201, 400 or 404;
    [success] is true exactly for the statuses below 400; a failure carries a
    message and no data; a success carries data. *)
Theorem envelope_consistent (users : list user) (r : request) :
  let resp := snd (handle users r) in
  status resp ∈ [200; 201; 400; 404]
  ∧ (success resp = true ↔ status resp < 400)
  ∧ (success resp = false → is_Some (message resp) ∧ data resp = None)
  ∧ (success resp = true → is_Some (data resp)).
Proof.
  assert (∀ resp, resp = user_not_found ∨ resp = name_email_required
                  ∨ (∃ u, resp = found u ∨ resp = updated u ∨ resp = deleted u
                          ∨ resp = created u)
                  ∨ (∃ l, resp = mkResponse 200 true None (Some (length l))
                                   (Some (AllUsers l)) None) →
          status resp ∈ [200; 201; 400; 404]
          ∧ (success resp = true ↔ status resp < 400)
          ∧ (success resp = false → is_Some (message resp) ∧ data resp = None)
          ∧ (success resp = true → is_Some (data resp))) as Hshape.
  { intros resp [-> | [-> | [[u [-> | [-> | [-> | ->]]]] | [l ->]]]]; simpl;
      (split_and!; [set_solver | split; intros; (done || lia) | | ]);
      intros; (done || eauto). }
  simpl. apply Hshape.
  destruct r as [| p | body | p body | p]; simpl.
  - right. right. right. by exists users.
  - rewrite get_user_spec. destruct (list_find _ _) as [[i u] |]; simpl; eauto 10.
  - unfold create_user. destruct (_ || _); simpl; [eauto |].
    right. right. left. eexists. right. right. right. reflexivity.
  - rewrite update_user_spec. destruct (list_find _ _) as [[i u] |]; simpl; eauto 10.
  - rewrite delete_user_spec. destruct (list_find _ _) as [[i u] |]; simpl; eauto 10.
Qed.

(** X3: GET, PUT and DELETE by id answer not-found exactly when no record
    has an id equal to what parseInt reads from the segment. *)
Theorem not_found_iff_absent (users : list user) (p : js_string) (body : req_body) :
  (snd (get_user users p) = user_not_found
   ↔ Forall (fun u => Int (id u) ≠ parseInt p) users)
  ∧ (snd (update_user users p body) = user_not_found
     ↔ Forall (fun u => Int (id u) ≠ parseInt p) users)
  ∧ (snd (delete_user users p) = user_not_found
     ↔ Forall (fun u => Int (id u) ≠ parseInt p) users).
Proof.
  rewrite get_user_spec, update_user_spec, delete_user_spec.
  rewrite <- (list_find_None (has_id (parseInt p)) users).
  by destruct (list_find _ _) as [[i u] |]; simpl.
Qed.

(** X4: the size of the collection follows the response: a POST adds one
    record when it answers 201 and changes nothing otherwise, a DELETE removes
    one when it answers 200 and changes nothing otherwise, a PUT keeps the
    size, and the two GET routes keep the collection. *)
Theorem handle_size_effect (users : list user) (r : request) :
  size_effect users r (fst (handle users r)) (snd (handle users r)).
Proof.
  destruct r as [| p | body | p body | p]; simpl; [done | | | |].
  - rewrite get_user_spec. by destruct (list_find _ _) as [[i u] |].
  - unfold create_user. destruct (_ || _); simpl; [done |].
    rewrite length_app. simpl. lia.
  - rewrite update_user_spec. destruct (list_find _ _) as [[i u] |]; [| done].
    apply length_insert.
  - rewrite delete_user_spec.
    destruct (list_find _ _) as [[i u] |] eqn:Hfind; [| done]. simpl.
    apply list_find_Some in Hfind as (Hi & _ & _).
    pose proof (lookup_lt_Some _ _ _ Hi).
    rewrite length_delete by eauto. lia.
Qed.

(** ** PUT twice, PUT with nothing to assign *)

Module UpdateFacts.

Lemma assign_fields_idem body u :
  assign_fields body (assign_fields body u) = assign_fields body u.
Proof. unfold assign_fields. by destruct (truthy _), (truthy _). Qed.

Lemma assign_fields_nothing body u :
  truthy (body_name body) = false → truthy (body_email body) = false →
  assign_fields body u = u.
Proof. unfold assign_fields. by intros -> ->. Qed.

(** Replacing the first match by a record with the same id keeps it the
    first match. *)
Lemma list_find_replace users n i u u' :
  list_find (has_id n) users = Some (i, u) → id u' = id u →
  list_find (has_id n) (<[i := u']> users) = Some (i, u').
Proof.
  intros (Hi & Hu & Hfirst)%list_find_Some Hid.
  apply list_find_insert_Some. right. left. split_and!; [done | done | | |].
  - by eapply lookup_lt_Some.
  - unfold has_id in *. by rewrite Hid.
  - intros j v Hj Hlt. by apply (Hfirst j).
Qed.

End UpdateFacts.

(** X5: PUT is idempotent: the same PUT sent a second time leaves the
    collection as the first left it and sends the same response. *)
Theorem update_user_idempotent (users : list user) (p : js_string) (body : req_body) :
  update_user (fst (update_user users p body)) p body = update_user users p body.
Proof.
  rewrite (update_user_spec users).
  destruct (list_find _ users) as [[i u] |] eqn:Hfind; simpl.
  - rewrite update_user_spec.
    rewrite (UpdateFacts.list_find_replace users _ i u (assign_fields body u) Hfind)
      by apply Uniqueness.assign_fields_id.
    by rewrite UpdateFacts.assign_fields_idem, list_insert_insert_eq.
  - by rewrite update_user_spec, Hfind.
Qed.

(** X6: a PUT whose body has no truthy name and no truthy email (an empty
    object, empty strings, nulls) changes nothing: when the id is found it
    still answers 200 with the record as it is, otherwise 404. *)
Theorem update_user_nothing_assigned (users : list user) (p : js_string)
    (body : req_body) :
  truthy (body_name body) = false →
  truthy (body_email body) = false →
  update_user users p body =
    match find (parseInt p) users with
    | Some u => (users, updated u)
    | None => (users, user_not_found)
    end.
Proof.
  intros Hname Hemail. rewrite update_user_spec. unfold find.
  destruct (list_find _ users) as [[i u] |] eqn:Hfind; simpl; [| done].
  apply list_find_Some in Hfind as (Hi & _ & _).
  rewrite UpdateFacts.assign_fields_nothing by done.
  by rewrite list_insert_id.
Qed.

Lemma update_user_nothing_assigned_witness :
  update_user seed (str "1") (mkBody (JStr "") JUndefined) =
    match find (parseInt (str "1")) seed with
    | Some u => (seed, updated u)
    | None => (seed, user_not_found)
    end.
Proof.
  apply (update_user_nothing_assigned seed (str "1") (mkBody (JStr "") JUndefined));
    reflexivity.
Defined.

(** ** A created record, fetched and deleted by its id *)

(** X7: when no record has the id that POST is about to assign, the record
    just created is the one GET returns for that id, and DELETE for that id
    gives back the collection as it was before the POST. *)
Theorem created_record_round_trip (users : list user) (body : req_body)
    (p : js_string) :
  truthy (body_name body) = true →
  truthy (body_email body) = true →
  parseInt p = Int (Z.of_nat (length users) + 1) →
  Z.of_nat (length users) + 1 ∉ ids users →
  let newUser := mkUser (Z.of_nat (length users) + 1) (body_name body) (body_email body) in
  let users' := fst (create_user users body) in
  users' = users ++ [newUser]
  ∧ get_user users' p = (users', found newUser)
  ∧ delete_user users' p = (users, deleted newUser).
Proof.
  intros Hname Hemail Hp Hfresh newUser users'.
  assert (users' = users ++ [newUser]) as ->.
  { unfold users', create_user. by rewrite Hname, Hemail. }
  assert (list_find (has_id (parseInt p)) (users ++ [newUser])
          = Some (length users, newUser)) as Hfind.
  { apply (list_find_first _ _ users newUser []); [done | by rewrite Hp |].
    apply Forall_forall. intros v Hv Hid. apply Hfresh.
    unfold has_id in Hid. rewrite Hp in Hid. injection Hid as <-.
    by apply list_elem_of_fmap_2. }
  rewrite get_user_spec, delete_user_spec, Hfind. split_and!; [done | done |].
  by rewrite (delete_middle users [] newUser), app_nil_r.
Qed.

Lemma created_record_round_trip_witness :
  let newUser := mkUser (Z.of_nat (length seed) + 1) (JStr "Ann") (JStr "ann@x.com") in
  let users' := fst (create_user seed ann) in
  users' = seed ++ [newUser]
  ∧ get_user users' (str "4") = (users', found newUser)
  ∧ delete_user users' (str "4") = (seed, deleted newUser).
Proof.
  apply (created_record_round_trip seed ann (str "4")); try reflexivity.
  exact (bool_decide_unpack (Z.of_nat (length seed) + 1 ∉ ids seed) I).
Defined.

(** ** Distinct ids *)

(** X8: on a collection with pairwise distinct ids, an accepted POST keeps
    the ids distinct exactly when no record already has the id length + 1. *)
Theorem create_keeps_distinct_iff (users : list user) (body : req_body) :
  NoDup (ids users) →
  truthy (body_name body) = true →
  truthy (body_email body) = true →
  NoDup (ids (fst (create_user users body)))
  ↔ Z.of_nat (length users) + 1 ∉ ids users.
Proof.
  intros Hnd Hname Hemail. unfold create_user. rewrite Hname, Hemail. simpl.
  unfold ids. rewrite fmap_app. simpl. rewrite NoDup_app. split.
  - intros (_ & Hdisj & _) Hin. apply (Hdisj _ Hin). by left.
  - intros Hfresh. split_and!; [done | | apply NoDup_singleton].
    intros x Hx ->%list_elem_of_singleton. done.
Qed.

Lemma create_keeps_distinct_iff_witness :
  NoDup (ids (fst (create_user seed ann)))
  ↔ Z.of_nat (length seed) + 1 ∉ ids seed.
Proof.
  apply (create_keeps_distinct_iff seed ann); try reflexivity.
  exact (bool_decide_unpack (NoDup (ids seed)) I).
Defined.

(** X9: from the seed records, any sequence of requests that contains no
    DELETE leaves the ids equal to 1, 2, ..., n in this order, n the size of
    the collection; in particular they are pairwise distinct. *)
Theorem ids_consecutive_without_delete (rs : list request) :
  Forall (fun r => is_delete r = false) rs →
  ids (run rs seed) = seqZ 1 (Z.of_nat (length (run rs seed)))
  ∧ NoDup (ids (run rs seed)).
Proof.
  intros Hrs.
  pose proof (Uniqueness.run_consecutive rs seed Hrs Uniqueness.consecutive_seed)
    as Hc.
  split; [exact Hc | by apply Uniqueness.consecutive_NoDup].
Qed.

Lemma ids_consecutive_without_delete_witness :
  let rs := [Post ann; Put (str "2") (mkBody (JStr "Janet") JUndefined); GetAll] in
  ids (run rs seed) = seqZ 1 (Z.of_nat (length (run rs seed)))
  ∧ NoDup (ids (run rs seed)).
Proof.
  apply (ids_consecutive_without_delete
           [Post ann; Put (str "2") (mkBody (JStr "Janet") JUndefined); GetAll]).
  repeat (apply Forall_cons; split; [reflexivity |]). apply Forall_nil_2.
Defined.

(** X10: GET, PUT and DELETE never introduce a repeated id: a request that
    is not a POST keeps pairwise distinct ids pairwise distinct. *)
Theorem non_post_keeps_distinct (users : list user) (r : request) :
  is_post r = false →
  NoDup (ids users) →
  NoDup (ids (fst (handle users r))).
Proof.
  intros Hr Hnd. destruct r as [| p | body | p body | p]; simpl in *;
    [done | | done | |].
  - rewrite get_user_spec. by destruct (list_find _ _) as [[i u] |].
  - by rewrite Uniqueness.update_user_ids.
  - by apply Uniqueness.delete_user_NoDup.
Qed.

Lemma non_post_keeps_distinct_witness :
  NoDup (ids (fst (handle seed (Delete (str "2"))))).
Proof.
  apply (non_post_keeps_distinct seed (Delete (str "2"))); [reflexivity |].
  exact (bool_decide_unpack (NoDup (ids seed)) I).
Defined.

(** X11: while the ids are pairwise distinct, DELETE of an id that occurs
    removes the one record with that id, keeps the others in their order,
    sends the removed record, and the GET for that id that follows answers
    not-found. *)
Theorem delete_then_get_not_found (users : list user) (p : js_string) (z : Z) :
  parseInt p = Int z →
  z ∈ ids users →
  NoDup (ids users) →
  ∃ l1 u l2,
    users = (l1 ++ u :: l2) ∧ id u = z
    ∧ delete_user users p = (l1 ++ l2, deleted u)
    ∧ (z ∉ ids (l1 ++ l2))
    ∧ get_user (l1 ++ l2) p = (l1 ++ l2, user_not_found).
Proof.
  intros Hp Hz Hnd.
  pose proof (Uniqueness.get_after_delete_unique users p z Hp Hz Hnd) as Hget.
  destruct (Uniqueness.delete_user_removes_one users p z Hp Hz)
    as (l1 & u & l2 & Husers & Hu & Hl1 & Hdel & _).
  exists l1, u, l2. rewrite Hdel in Hget. simpl in Hget.
  split_and!; [done | done | done | | done].
  subst users. unfold ids in *. rewrite fmap_app, fmap_cons in Hnd.
  apply NoDup_app in Hnd as (_ & Hdisj & Hnd). apply NoDup_cons in Hnd as [Hnotin _].
  rewrite fmap_app. apply not_elem_of_app. split.
  - intros Hin. apply (Hdisj _ Hin). rewrite Hu. by left.
  - by rewrite <- Hu.
Qed.

Lemma delete_then_get_not_found_witness :
  ∃ l1 u l2,
    seed = (l1 ++ u :: l2) ∧ id u = 2
    ∧ delete_user seed (str "2") = (l1 ++ l2, deleted u)
    ∧ (2 ∉ ids (l1 ++ l2))
    ∧ get_user (l1 ++ l2) (str "2") = (l1 ++ l2, user_not_found).
Proof.
  apply (delete_then_get_not_found seed (str "2") 2).
  - reflexivity.
  - exact (bool_decide_unpack (2 ∈ ids seed) I).
  - exact (bool_decide_unpack (NoDup (ids seed)) I).
Defined.

(** ** What every record satisfies *)

Module ValidFacts.

Lemma seed_valid : Forall valid_record seed.
Proof. repeat (apply Forall_cons; split; [by split_and! |]). apply Forall_nil_2. Qed.

Lemma assign_fields_valid body u : valid_record u → valid_record (assign_fields body u).
Proof.
  unfold valid_record, assign_fields. intros (Hid & Hname & Hemail).
  destruct (truthy (body_name body)) eqn:Hn, (truthy (body_email body)) eqn:He;
    simpl; by split_and!.
Qed.

Lemma handle_valid users r :
  Forall valid_record users → Forall valid_record (fst (handle users r)).
Proof.
  intros Hv. destruct r as [| p | body | p body | p]; simpl; [done | | | |].
  - rewrite get_user_spec. by destruct (list_find _ _) as [[i u] |].
  - unfold create_user.
    destruct (truthy (body_name body)) eqn:Hn, (truthy (body_email body)) eqn:He;
      simpl; try done.
    apply Forall_app. split; [done |]. apply Forall_singleton.
    unfold valid_record. simpl. split_and!; [lia | done | done].
  - rewrite update_user_spec.
    destruct (list_find _ _) as [[i u] |] eqn:Hfind; [| done]. simpl.
    apply list_find_Some in Hfind as (Hi & _ & _).
    apply Forall_insert; [done |]. apply assign_fields_valid.
    by eapply Forall_lookup_1.
  - rewrite delete_user_spec. destruct (list_find _ _) as [[i u] |]; [| done].
    by apply Forall_delete.
Qed.

End ValidFacts.

(** X12: the handlers keep every record well formed: if every record has an
    id of at least 1 and a truthy name and email, so has every record after
    any sequence of requests.  The seed records are such a collection. *)
Theorem records_stay_valid (rs : list request) (users : list user) :
  Forall valid_record users →
  Forall valid_record (run rs users).
Proof.
  revert users. induction rs as [| r rs IH]; intros users Hv; [done |].
  simpl. apply IH. by apply ValidFacts.handle_valid.
Qed.

Lemma records_stay_valid_witness :
  Forall valid_record
    (run [Post ann; Put (str "1") (mkBody (JStr "") (JStr "j@x.com")); Delete (str "2")]
       seed).
Proof.
  apply (records_stay_valid
           [Post ann; Put (str "1") (mkBody (JStr "") (JStr "j@x.com")); Delete (str "2")]
           seed).
  exact ValidFacts.seed_valid.
Defined.

(** X13: on a collection whose ids are all at least 1, a segment that
    parses to zero or to a negative integer matches nothing: GET, PUT and
    DELETE answer not-found and leave the collection as it is. *)
Theorem non_positive_id_not_found (users : list user) (p : js_string) (z : Z)
    (body : req_body) :
  Forall (fun u => 1 ≤ id u) users →
  parseInt p = Int z →
  z ≤ 0 →
  get_user users p = (users, user_not_found)
  ∧ update_user users p body = (users, user_not_found)
  ∧ delete_user users p = (users, user_not_found).
Proof.
  intros Hids Hp Hz.
  assert (list_find (has_id (parseInt p)) users = None) as Hfind.
  { apply list_find_None. eapply Forall_impl; [exact Hids |].
    intros u Hid Hu. simpl in Hid. unfold has_id in Hu. rewrite Hp in Hu.
    injection Hu as Hu. lia. }
  by rewrite get_user_spec, update_user_spec, delete_user_spec, Hfind.
Qed.

Lemma non_positive_id_not_found_witness :
  get_user seed (str "-1") = (seed, user_not_found)
  ∧ update_user seed (str "-1") ann = (seed, user_not_found)
  ∧ delete_user seed (str "-1") = (seed, user_not_found).
Proof.
  apply (non_positive_id_not_found seed (str "-1") (-1) ann).
  - repeat (apply Forall_cons; split; [simpl; lia |]). apply Forall_nil_2.
  - reflexivity.
  - lia.
Defined.

(** ** More on how the segment is read *)

Module SegmentFacts.

Lemma trim_start_white_space ws p :
  forallb is_white_space ws = true → trim_start (ws ++ p) = trim_start p.
Proof.
  induction ws as [| c ws IH]; simpl; [done |].
  intros [Hc Hws]%andb_true_iff. rewrite Hc. by apply IH.
Qed.

Lemma str_app s t : str (s +:+ t) = str s ++ str t.
Proof. induction s as [| c s IH]; simpl; [done | by rewrite IH]. Qed.

Lemma string_app_snoc s c t : (s +:+ String c "") +:+ t = s +:+ String c t.
Proof.
  induction s as [| c' s IH]; [done |].
  change (String c' ((s +:+ String c "") +:+ t) = String c' (s +:+ String c t)).
  by f_equal.
Qed.

Lemma decimal_snoc ds c : decimal (ds ++ [c]) = decimal ds * 10 + (Z.of_N c - 48).
Proof. unfold decimal. by rewrite fold_left_app. Qed.

Lemma pretty_N_char_code y :
  (y < 10)%N → N_of_ascii (pretty_N_char y) = (48 + y)%N.
Proof.
  intros Hy.
  assert (y = 0 ∨ y = 1 ∨ y = 2 ∨ y = 3 ∨ y = 4 ∨ y = 5 ∨ y = 6 ∨ y = 7
          ∨ y = 8 ∨ y = 9)%N as Hcases by lia.
  by repeat (destruct Hcases as [-> | Hcases]; [done |]); subst.
Qed.

(** The digits [pretty] puts before [s] are decimal digits, and they denote
    the number printed. *)
Lemma pretty_N_go_decimal x s :
  ∃ d, pretty_N_go x s = d +:+ s
       ∧ forallb is_decimal_digit (str d) = true
       ∧ decimal (str d) = Z.of_N x
       ∧ ((0 < x)%N → d ≠ "").
Proof.
  revert s. induction (N.lt_wf_0 x) as [x _ IH]. intros s.
  assert (x = 0 ∨ 0 < x)%N as [-> | Hpos] by lia.
  - exists "". rewrite pretty_N_go_0. split_and!; [done | done | done | lia].
  - rewrite pretty_N_go_step by done.
    destruct (IH (x `div` 10)%N (N.div_lt x 10 Hpos eq_refl)
                (String (pretty_N_char (x `mod` 10)) s))
      as (d & -> & Hdigits & Hvalue & _).
    assert (x `mod` 10 < 10)%N as Hmod by (apply N.mod_lt; lia).
    pose proof (N.div_mod x 10) as Hdiv.
    revert Hvalue Hmod Hdiv.
    generalize (x `div` 10)%N (x `mod` 10)%N. intros q y Hvalue Hmod Hdiv.
    exists (d +:+ String (pretty_N_char y) "").
    rewrite string_app_snoc, str_app. simpl str.
    rewrite pretty_N_char_code by done. split_and!.
    + done.
    + rewrite forallb_app, Hdigits. simpl. unfold is_decimal_digit.
      rewrite andb_true_r. apply andb_true_iff. split; apply Z.leb_le; lia.
    + rewrite decimal_snoc, Hvalue. lia.
    + intros _. by destruct d.
Qed.

Lemma pretty_N_decimal x :
  is_numeric (str (pretty x)) = true ∧ decimal (str (pretty x)) = Z.of_N x.
Proof.
  unfold pretty, pretty_N. destruct (decide (x = 0)%N) as [-> | Hx]; [done |].
  destruct (pretty_N_go_decimal x "") as (d & -> & Hdigits & Hvalue & Hne).
  assert (d +:+ "" = d) as ->.
  { clear. induction d as [| c d IH]; [done |].
    change (String c (d +:+ "") = String c d). by f_equal. }
  split; [| done]. unfold is_numeric. rewrite Hdigits, andb_true_r.
  destruct d as [| c d]; [by destruct Hne; [lia |] |].
  simpl in *. by apply andb_true_iff in Hdigits as [-> _].
Qed.

(** Records with the same id are one record when the ids are distinct. *)
Lemma same_id_same_record users u v :
  NoDup (ids users) → u ∈ users → v ∈ users → id u = id v → u = v.
Proof.
  intros Hnd (i & Hi)%list_elem_of_lookup (j & Hj)%list_elem_of_lookup Hid.
  assert (i = j) as ->; [| congruence].
  apply (NoDup_lookup (ids users) i j (id u)); [done | |]; unfold ids;
    rewrite list_lookup_fmap; [by rewrite Hi | by rewrite Hj, Hid].
Qed.

End SegmentFacts.

(** X14: white space before the id is ignored: with any run of white-space
    characters in front of the segment, the three routes do what they do on
    the segment itself. *)
Theorem leading_white_space_ignored (users : list user) (ws p : js_string)
    (body : req_body) :
  forallb is_white_space ws = true →
  parseInt (ws ++ p) = parseInt p
  ∧ get_user users (ws ++ p) = get_user users p
  ∧ update_user users (ws ++ p) body = update_user users p body
  ∧ delete_user users (ws ++ p) = delete_user users p.
Proof.
  intros Hws.
  assert (parseInt (ws ++ p) = parseInt p) as Hp.
  { unfold parseInt. by rewrite SegmentFacts.trim_start_white_space. }
  by rewrite !get_user_spec, !update_user_spec, !delete_user_spec, Hp.
Qed.

Lemma leading_white_space_ignored_witness :
  parseInt (str " " ++ str "2") = parseInt (str "2")
  ∧ get_user seed (str " " ++ str "2") = get_user seed (str "2")
  ∧ update_user seed (str " " ++ str "2") ann = update_user seed (str "2") ann
  ∧ delete_user seed (str " " ++ str "2") = delete_user seed (str "2").
Proof.
  apply (leading_white_space_ignored seed (str " ") (str "2") ann). reflexivity.
Defined.

(** X15: the decimal numeral of a non-negative id parses back to that id,
    so a record with a non-negative id is never not-found under the numeral
    of its id: GET answers with a record of that id, and with the record
    itself when the ids are pairwise distinct. *)
Theorem record_found_by_its_id (users : list user) (u : user) :
  u ∈ users →
  0 ≤ id u →
  parseInt (segment_of_id (id u)) = Int (id u)
  ∧ ∃ v, v ∈ users ∧ id v = id u
         ∧ get_user users (segment_of_id (id u)) = (users, found v)
         ∧ (NoDup (ids users) → v = u).
Proof.
  intros Hu Hid.
  assert (parseInt (segment_of_id (id u)) = Int (id u)) as Hp.
  { unfold segment_of_id.
    destruct (SegmentFacts.pretty_N_decimal (Z.to_N (id u))) as [Hnum Hval].
    rewrite (parseInt_numeric _ Hnum), Hval. f_equal. lia. }
  split; [done |].
  destruct (list_find_present users (id u)) as (i & v & Hfind).
  { by apply list_elem_of_fmap_2. }
  exists v. rewrite get_user_spec, Hp, Hfind.
  apply list_find_Some in Hfind as (Hi & Hv & _).
  unfold has_id in Hv. injection Hv as Hv.
  assert (v ∈ users) as Hin by (by eapply list_elem_of_lookup_2).
  split_and!; [done | done | done |].
  intros Hnd. by apply (SegmentFacts.same_id_same_record users).
Qed.

Lemma record_found_by_its_id_witness :
  let bob := mkUser 3 (JStr "Bob Johnson") (JStr "bob@example.com") in
  parseInt (segment_of_id (id bob)) = Int (id bob)
  ∧ ∃ v, v ∈ seed ∧ id v = id bob
         ∧ get_user seed (segment_of_id (id bob)) = (seed, found v)
         ∧ (NoDup (ids seed) → v = bob).
Proof.
  apply (record_found_by_its_id seed
           (mkUser 3 (JStr "Bob Johnson") (JStr "bob@example.com"))).
  - apply list_elem_of_further, list_elem_of_further, list_elem_of_here.
  - simpl. lia.
Defined.

(** ** The name under which an upload is stored *)

Module FilenameFacts.

Lemma append_nil_l (s : string) : "" +:+ s = s.
Proof. done. Qed.

Lemma append_cons (c : ascii) (s t : string) : String c s +:+ t = String c (s +:+ t).
Proof. done. Qed.

(** Two runs of digits, each followed by a dash, are equal with what follows
    them only if the runs are equal and what follows is. *)
Lemma digits_dash_split d1 d2 o1 o2 :
  forallb is_decimal_digit (str d1) = true →
  forallb is_decimal_digit (str d2) = true →
  d1 +:+ String "-" o1 = d2 +:+ String "-" o2 →
  d1 = d2 ∧ o1 = o2.
Proof.
  revert d2. induction d1 as [| c1 d1 IH]; intros [| c2 d2] H1 H2;
    rewrite ?append_nil_l, ?append_cons; intros Heq.
  - by injection Heq as ->.
  - injection Heq as <- _. simpl in H2. discriminate H2.
  - injection Heq as -> _. simpl in H1. discriminate H1.
  - injection Heq as -> Heq. simpl in H1, H2.
    apply andb_true_iff in H1 as [_ H1]. apply andb_true_iff in H2 as [_ H2].
    destruct (IH d2 H1 H2 Heq) as [-> ->]. done.
Qed.

Lemma pretty_N_digits (n : N) : forallb is_decimal_digit (str (pretty n)) = true.
Proof.
  destruct (SegmentFacts.pretty_N_decimal n) as [Hnum _].
  unfold is_numeric in Hnum. by apply andb_true_iff in Hnum as [_ ?].
Qed.

End FilenameFacts.

(** X16: the stored name [Date.now() + "-" + originalname] determines both
    parts: two uploads get the same file name exactly when they have the same
    timestamp and the same original name. *)
Theorem filename_inj (now1 now2 : N) (f1 f2 : file_part) :
  filename now1 f1 = filename now2 f2
  ↔ now1 = now2 ∧ originalname f1 = originalname f2.
Proof.
  unfold filename. split.
  - intros Heq.
    destruct (FilenameFacts.digits_dash_split (pretty now1) (pretty now2)
                (originalname f1) (originalname f2)
                (FilenameFacts.pretty_N_digits now1)
                (FilenameFacts.pretty_N_digits now2) Heq) as [Hnow Horig].
    split; [by apply (inj pretty) | done].
  - by intros [-> ->].
Qed.

(** ** What an upload can leave in the directory *)

(** X17: POST /api/upload answers 200 or 400.  On a 400 the upload directory
    is unchanged and the response describes no file.  On a 200 exactly one
    entry of the directory was written: the response reports its name, its
    size and its path under the upload directory; the file has one of the
    three allowed types and at most 5 * 1024 * 1024 bytes; every other entry
    is as before. *)
Theorem upload_writes_only_on_success (uploadsDir : string) (now : N)
    (dir : directory) (image : option file_part) :
  let dir' := fst (post_upload uploadsDir now dir image) in
  let resp := snd (post_upload uploadsDir now dir image) in
  (status resp = 200 ∨ status resp = 400)
  ∧ (status resp = 400 → success resp = false ∧ dir' = dir ∧ file resp = None)
  ∧ (status resp = 200 →
     ∃ f, image = Some f
          ∧ mimetype f ∈ allowedTypes
          ∧ (size f ≤ 5 * 1024 * 1024)%N
          ∧ file resp
            = Some (mkFileInfo (filename now f) (mimetype f) (size f)
                      (uploadsDir +:+ "/" +:+ filename now f))
          ∧ dir' !! filename now f = Some (size f)
          ∧ ∀ k, k ≠ filename now f → dir' !! k = dir !! k).
Proof.
  unfold post_upload, multer_single, fileFilter.
  destruct image as [f |]; simpl; [| by split_and!; [right | |]].
  destruct (bool_decide (mimetype f ∈ allowedTypes)) eqn:Hmime; simpl;
    [| by split_and!; [right | |]].
  apply bool_decide_eq_true in Hmime.
  destruct (N.ltb_spec fileSize (size f)) as [Hbig | Hfits]; simpl;
    [by split_and!; [right | |] |].
  split_and!; [by left | done |]. intros _. exists f.
  split_and!; [done | done | exact Hfits | done | apply lookup_insert_eq |].
  intros k Hk. by apply lookup_insert_ne.
Qed.

(** ** PUT composed with PUT and with GET *)

Module ComposeFacts.

(** Replacing a record that does not match by one that does not match
    changes nothing for the search. *)
Lemma list_find_insert_other users n i u u' :
  users !! i = Some u → ¬ has_id n u → ¬ has_id n u' →
  list_find (has_id n) (<[i := u']> users) = list_find (has_id n) users.
Proof.
  revert i. induction users as [| v users IH]; intros [| i] Hi Hu Hu';
    simplify_eq/=.
  - by rewrite !decide_False.
  - by rewrite (IH i).
Qed.

Lemma assign_fields_split n e u :
  assign_fields (mkBody JUndefined e) (assign_fields (mkBody n JUndefined) u)
  = assign_fields (mkBody n e) u
  ∧ assign_fields (mkBody n JUndefined) (assign_fields (mkBody JUndefined e) u)
    = assign_fields (mkBody n e) u.
Proof. unfold assign_fields. simpl. by destruct (truthy n), (truthy e). Qed.

End ComposeFacts.

(** X18: partial updates compose: a PUT with only the name followed by a PUT
    with only the email, in either order, leaves the collection and sends the
    response of the single PUT that carries both. *)
Theorem partial_updates_compose (users : list user) (p : js_string) (n e : jsval) :
  update_user (fst (update_user users p (mkBody n JUndefined))) p (mkBody JUndefined e)
  = update_user users p (mkBody n e)
  ∧ update_user (fst (update_user users p (mkBody JUndefined e))) p (mkBody n JUndefined)
    = update_user users p (mkBody n e).
Proof.
  rewrite !(update_user_spec users).
  destruct (list_find _ users) as [[i u] |] eqn:Hfind; simpl.
  - rewrite !update_user_spec.
    rewrite !(UpdateFacts.list_find_replace users _ i u _ Hfind)
      by apply Uniqueness.assign_fields_id.
    destruct (ComposeFacts.assign_fields_split n e u) as [-> ->].
    by rewrite !list_insert_insert_eq.
  - by rewrite !update_user_spec, Hfind.
Qed.

(** X19: a GET that follows a PUT for the same segment sends the record the
    PUT sent (and is not-found when the PUT was). *)
Theorem get_after_update (users : list user) (p : js_string) (body : req_body) :
  data (snd (get_user (fst (update_user users p body)) p))
  = data (snd (update_user users p body))
  ∧ status (snd (get_user (fst (update_user users p body)) p))
    = status (snd (update_user users p body)).
Proof.
  rewrite update_user_spec.
  destruct (list_find _ users) as [[i u] |] eqn:Hfind; simpl.
  - rewrite get_user_spec.
    by rewrite (UpdateFacts.list_find_replace users _ i u _ Hfind)
      by apply Uniqueness.assign_fields_id.
  - by rewrite get_user_spec, Hfind.
Qed.

(** X20: a PUT does not change what the routes find under another id: when
    two segments parse to different results, GET for the second answers after
    a PUT for the first as it did before. *)
Theorem update_frames_other_ids (users : list user) (p q : js_string)
    (body : req_body) :
  parseInt q ≠ parseInt p →
  snd (get_user (fst (update_user users p body)) q) = snd (get_user users q).
Proof.
  intros Hne. rewrite update_user_spec.
  destruct (list_find (has_id (parseInt p)) users) as [[i u] |] eqn:Hfind;
    [| done]. simpl.
  apply list_find_Some in Hfind as (Hi & Hu & _).
  rewrite !get_user_spec.
  rewrite (ComposeFacts.list_find_insert_other users (parseInt q) i u); [| done | |].
  - by destruct (list_find _ users) as [[j v] |].
  - unfold has_id in *. congruence.
  - unfold has_id in *. rewrite Uniqueness.assign_fields_id. congruence.
Qed.

Lemma update_frames_other_ids_witness :
  snd (get_user (fst (update_user seed (str "1") ann)) (str "2"))
  = snd (get_user seed (str "2")).
Proof.
  apply (update_frames_other_ids seed (str "1") (str "2") ann).
  vm_compute. congruence.
Defined.

(** ** A partial PUT on every record, while the ids are distinct *)

(** X21: while the ids are pairwise distinct, for every record present in
    the collection a PUT for its id whose body has only a (truthy) name
    overwrites that record's name and keeps its email, a PUT whose body has
    only a (truthy) email overwrites its email and keeps its name, and the
    response carries that record as updated. *)
Theorem update_user_partial_distinct (users : list user) (u : user)
    (p : js_string) (v : jsval) :
  NoDup (ids users) →
  u ∈ users →
  parseInt p = Int (id u) →
  truthy v = true →
  ∃ i,
    users !! i = Some u
    ∧ update_user users p (mkBody v JUndefined)
      = (<[i := mkUser (id u) v (email u)]> users,
         updated (mkUser (id u) v (email u)))
    ∧ update_user users p (mkBody JUndefined v)
      = (<[i := mkUser (id u) (name u) v]> users,
         updated (mkUser (id u) (name u) v)).
Proof.
  intros Hnd Hu Hp Hv.
  destruct (update_user_partial users p (id u) v Hp) as (i & w & _ & Hi & Hid & Hn & He);
    [by apply list_elem_of_fmap_2 | done |].
  assert (w = u) as ->.
  { apply (SegmentFacts.same_id_same_record users); [done | | done | done].
    by eapply list_elem_of_lookup_2. }
  by exists i.
Qed.

Lemma update_user_partial_distinct_witness :
  let jane := mkUser 2 (JStr "Jane Smith") (JStr "jane@example.com") in
  ∃ i,
    seed !! i = Some jane
    ∧ update_user seed (str "2") (mkBody (JStr "Janet") JUndefined)
      = (<[i := mkUser (id jane) (JStr "Janet") (email jane)]> seed,
         updated (mkUser (id jane) (JStr "Janet") (email jane)))
    ∧ update_user seed (str "2") (mkBody JUndefined (JStr "Janet"))
      = (<[i := mkUser (id jane) (name jane) (JStr "Janet")]> seed,
         updated (mkUser (id jane) (name jane) (JStr "Janet"))).
Proof.
  apply (update_user_partial_distinct seed
           (mkUser 2 (JStr "Jane Smith") (JStr "jane@example.com"))
           (str "2") (JStr "Janet")).
  - exact (bool_decide_unpack (NoDup (ids seed)) I).
  - apply list_elem_of_further, list_elem_of_here.
  - reflexivity.
  - reflexivity.
Defined.
